(** * The symbol table of the plugin framework, and the long conversion of the runtime

    A shallow embedding of
      - packages/plugin-framework/src/symbol-table.ts (class [SymbolTable]),
      - packages/runtime/src/reflection-long-convert.ts ([reflectionLongConvert]),
      - packages/protoc/protoc.js (the wrapper script),
    followed by the properties of the name registry checked against it.

    Modelling conventions.
      - Descriptors and generated files are JavaScript objects compared with
        [===]: they are handles of an arbitrary type with decidable equality.
        What the table needs from its collaborators (the handle types,
        [StringFormat.formatName], [GeneratedFile.getFilename]) is the class
        [Collaborators].
      - A JavaScript string is a [string], one character per code unit; a
        count is a [nat], printed in decimal as JavaScript prints an integer.
      - An optional parameter with a default value is an [option]; the default
        is applied where the source applies it.
      - The table is passed explicitly: an operation that mutates [entries]
        returns the new table, a read-only operation returns only its value.
      - [throw] is the [Thrown] outcome.  The source raises plain [Error]
        objects; the constructor of [Error] records which of the three error
        situations of the component built the message.
      - The clash resolver is a function, as the component expects it to be
        (no side effects).  The calls [register] makes to it are returned
        beside the result, in order, so that they can be counted. *)

From stdpp Require Import base decidable option list strings pretty.

Open Scope string_scope.

(** ** Collaborators *)

Class Collaborators := {
  AnyTypeDescriptorProto : Type;
  GeneratedFile : Type;
  descriptor_eq_dec :: EqDecision AnyTypeDescriptorProto;
  file_eq_dec :: EqDecision GeneratedFile;
  (* StringFormat.formatName *)
  formatName : AnyTypeDescriptorProto -> string;
  (* GeneratedFile.getFilename *)
  getFilename : GeneratedFile -> string
}.

(** ** Results and errors *)

Inductive Error : Type :=
  | DuplicateRegistration (msg : string)
  | ClashResolutionExhausted (msg : string)
  | SymbolNotFound (msg : string).

Inductive Outcome (A : Type) : Type :=
  | Returned (a : A)
  | Thrown (e : Error).

Arguments Returned {A} a.
Arguments Thrown {A} e.

(** ** JavaScript helpers used by the source *)

(* The double quote character. *)
Definition dquote : string := String (Ascii.ascii_of_nat 34) "".

(* String(n) for a non-negative integer n. *)
Definition numberToString (n : nat) : string := pretty n.

(* s.endsWith(searchString) *)
Definition endsWith (s searchString : string) : bool :=
  bool_decide
    (String.substring (String.length s - String.length searchString)
       (String.length searchString) s = searchString)
  && bool_decide (String.length searchString <= String.length s).

(* s.substring(start) *)
Definition substring_from (start : nat) (s : string) : string :=
  String.substring start (String.length s - start) s.

(* array.indexOf(value): the first index holding value, -1 when there is none.
   [indexOf_from] carries the index of the head of the remaining list. *)
Fixpoint indexOf_from {A} `{EqDecision A} (array : list A) (value : A)
    (index : Z) : Z :=
  match array with
  | [] => -1
  | x :: rest =>
      if decide (x = value) then index else indexOf_from rest value (index + 1)
  end.

Definition indexOf {A} `{EqDecision A} (array : list A) (value : A) : Z :=
  indexOf_from array value 0.

(* array.filter((value, index, array) => ...): the callback also receives the
   index of the element and the whole array. *)
Fixpoint filter_from {A} (callback : A -> nat -> list A -> bool)
    (rest array : list A) (index : nat) : list A :=
  match rest with
  | [] => []
  | value :: rest' =>
      if callback value index array
      then value :: filter_from callback rest' array (S index)
      else filter_from callback rest' array (S index)
  end.

Definition filter_indexed {A} (callback : A -> nat -> list A -> bool)
    (array : list A) : list A :=
  filter_from callback array array 0.

(* (value, index, array) => array.indexOf(value) === index, the callback that
   get passes to filter: it keeps the first occurrence of each value. *)
Definition isFirstOccurrence {A} `{EqDecision A} (value : A) (index : nat)
    (array : list A) : bool :=
  bool_decide (indexOf array value = Z.of_nat index).

(** ** reflection-long-convert.ts *)

Inductive LongType : Type := BIGINT | NUMBER | STRING.

Section ReflectionLongConvert.
(* PbLong | PbULong, and the three JavaScript representations. *)
Context {Long JsString JsNumber JsBigInt : Type}.
Context (toBigInt : Long -> JsBigInt)
        (toNumber : Long -> JsNumber)
        (toString : Long -> JsString).

(* string | number | bigint *)
Inductive LongValue : Type :=
  | AsString (s : JsString)
  | AsNumber (n : JsNumber)
  | AsBigInt (b : JsBigInt).

Definition reflectionLongConvert (long : Long) (type : option LongType)
    : LongValue :=
  match type with
  | Some BIGINT => AsBigInt (toBigInt long)
  | Some NUMBER => AsNumber (toNumber long)
  | _ =>
      (* case undefined: case LongType.STRING: *)
      AsString (toString long)
  end.
End ReflectionLongConvert.

Arguments LongValue : clear implicits.
Arguments AsString {JsString JsNumber JsBigInt} s.
Arguments AsNumber {JsString JsNumber JsBigInt} n.
Arguments AsBigInt {JsString JsNumber JsBigInt} b.

(** ** symbol-table.ts *)

Section SymbolTable.
Context `{Collaborators}.

Record SymbolTableEntry : Type := mkEntry {
  e_file : GeneratedFile;
  e_descriptor : AnyTypeDescriptorProto;
  e_name : string;
  e_kind : string
}.

(* (descriptor, file, requestedName, kind, tryCount, failedName) => string *)
Definition ClashResolver : Type :=
  AnyTypeDescriptorProto -> GeneratedFile -> string -> string -> nat ->
  string -> string.

Record SymbolTable : Type := mkTable {
  entries : list SymbolTableEntry;
  clashResolver : ClashResolver
}.

Definition clashResolveMaxTries : nat := 100.

(* One call of the clash resolver, with the arguments it received. *)
Record ResolverCall : Type := mkCall {
  c_descriptor : AnyTypeDescriptorProto;
  c_file : GeneratedFile;
  c_requestedName : string;
  c_kind : string;
  c_tryCount : nat;
  c_failedName : string
}.

Definition defaultClashResolver (descriptor : AnyTypeDescriptorProto)
    (file : GeneratedFile) (requestedName kind : string) (tryCount : nat)
    : string :=
  let n := requestedName in
  let n := if endsWith n "$" then substring_from 1 n else n in
  n +:+ "$" +:+ numberToString tryCount.

(* constructor(clashResolver?) *)
Definition new_SymbolTable (resolver : option ClashResolver) : SymbolTable :=
  {| entries := [];
     clashResolver :=
       default
         (fun descriptor file requestedName kind tryCount _ =>
            defaultClashResolver descriptor file requestedName kind tryCount)
         resolver |}.

Definition find (this : SymbolTable) (descriptor : AnyTypeDescriptorProto)
    (kind : option string) : option SymbolTableEntry :=
  let kind := default "default" kind in
  List.find
    (fun e => bool_decide (e_descriptor e = descriptor)
              && bool_decide (e_kind e = kind))
    (entries this).

Definition get (this : SymbolTable) (descriptor : AnyTypeDescriptorProto)
    (kind : option string) : Outcome SymbolTableEntry :=
  let kind := default "default" kind in
  match find this descriptor (Some kind) with
  | None =>
      let files :=
        filter_indexed
          (fun value index array =>
             bool_decide (indexOf array value = Z.of_nat index))
          (map e_file (entries this)) in
      let msg :=
        "Failed to find name for " +:+ formatName descriptor
        +:+ " of kind " +:+ dquote +:+ kind +:+ dquote +:+ ". "
        +:+ "Searched in " +:+ numberToString (length files) +:+ " files." in
      Thrown (SymbolNotFound msg)
  | Some found => Returned found
  end.

(* has(descriptor, kind?) and has(descriptor, file, kind?) share one
   implementation, whose second parameter [b] is a file or a string. *)
Definition has (this : SymbolTable) (descriptor : AnyTypeDescriptorProto)
    (b : option (GeneratedFile + string)) (kind : option string) : bool :=
  let b := default (inr "default") b in
  let kind := default "default" kind in
  bool_decide (find this descriptor (Some kind) <> None).

(* The method [list]; the name [list] is kept for the type of lists. *)
Definition list_ (this : SymbolTable) (file : GeneratedFile)
    (kind : option string) : list SymbolTableEntry :=
  let matches :=
    List.filter (fun e => bool_decide (e_file e = file)) (entries this) in
  match kind with
  | Some kind => List.filter (fun e => bool_decide (e_kind e = kind)) matches
  | None => matches
  end.

Definition hasNameInFile (this : SymbolTable) (name : string)
    (file : GeneratedFile) : bool :=
  existsb
    (fun e => bool_decide (e_file e = file) && bool_decide (e_name e = name))
    (entries this).

(* The loop of register that looks for a free name within the file.  The
   recursion is on [fuel]; [None] is a run that needs more of it. *)
Fixpoint findFreeName (this : SymbolTable)
    (descriptor : AnyTypeDescriptorProto) (file : GeneratedFile)
    (requestedName kind : string) (fuel : nat)
    (name : string) (count : nat) (calls : list ResolverCall)
    : option (string * nat * list ResolverCall) :=
  if hasNameInFile this name file && bool_decide (count < clashResolveMaxTries)
  then
    match fuel with
    | O => None
    | S fuel' =>
        let count := S count in
        let call :=
          mkCall descriptor file requestedName kind count name in
        let name :=
          clashResolver this descriptor file requestedName kind count name in
        findFreeName this descriptor file requestedName kind fuel'
          name count (calls ++ [call])
    end
  else Some (name, count, calls).

Definition register (this : SymbolTable) (requestedName : string)
    (descriptor : AnyTypeDescriptorProto) (file : GeneratedFile)
    (kind : option string)
    : option (Outcome string * SymbolTable * list ResolverCall) :=
  let kind := default "default" kind in
  (* Only one symbol per kind can be registered for a descriptor. *)
  if has this descriptor (Some (inr kind)) None then
    match get this descriptor (Some kind) with
    | Thrown e => Some (Thrown e, this, [])
    | Returned found =>
        let msg :=
          "Cannot register name " +:+ dquote +:+ requestedName +:+ dquote
          +:+ " of kind " +:+ dquote +:+ kind +:+ dquote
          +:+ " for " +:+ formatName descriptor +:+ ". "
          +:+ "The descriptor is already registered in file " +:+ dquote
          +:+ getFilename (e_file found) +:+ dquote
          +:+ " with name " +:+ dquote +:+ e_name found +:+ dquote +:+ ". "
          +:+ "Use a different 'kind' to register multiple symbols for a descriptor." in
        Some (Thrown (DuplicateRegistration msg), this, [])
    end
  else
    (* find a free name within the file *)
    match findFreeName this descriptor file requestedName kind
            clashResolveMaxTries requestedName 0 [] with
    | None => None
    | Some (name, count, calls) =>
        if hasNameInFile this name file then
          let msg :=
            "Failed to register name " +:+ dquote +:+ requestedName +:+ dquote
            +:+ " for " +:+ formatName descriptor +:+ ". "
            +:+ "Gave up finding alternative name after "
            +:+ numberToString clashResolveMaxTries +:+ " tries. "
            +:+ "There is something wrong with the clash resolver." in
          Some (Thrown (ClashResolutionExhausted msg), this, calls)
        else
          (* add the entry and return name *)
          Some (Returned name,
                {| entries := entries this ++ [mkEntry file descriptor name kind];
                   clashResolver := clashResolver this |},
                calls)
    end.

(** *** Sequences of operations *)

(* The operations of the public contract, as a caller issues them. *)
Inductive Operation : Type :=
  | Register (requestedName : string) (descriptor : AnyTypeDescriptorProto)
      (file : GeneratedFile) (kind : option string)
  | Find (descriptor : AnyTypeDescriptorProto) (kind : option string)
  | Get (descriptor : AnyTypeDescriptorProto) (kind : option string)
  | Has (descriptor : AnyTypeDescriptorProto)
      (b : option (GeneratedFile + string)) (kind : option string)
  | List (file : GeneratedFile) (kind : option string).

(* The table after one operation: only register writes to [entries]. *)
Definition perform (this : SymbolTable) (op : Operation) : SymbolTable :=
  match op with
  | Register requestedName descriptor file kind =>
      match register this requestedName descriptor file kind with
      | Some (_, this', _) => this'
      | None => this
      end
  | Find _ _ | Get _ _ | Has _ _ _ | List _ _ => this
  end.

Definition performAll (this : SymbolTable) (ops : list Operation)
    : SymbolTable :=
  fold_left perform ops this.

(** *** The two uniqueness invariants of the data model *)

(* I1: at most one entry for a pair (descriptor, kind). *)
Definition I1 (es : list SymbolTableEntry) : Prop :=
  forall i j e1 e2,
    es !! i = Some e1 -> es !! j = Some e2 ->
    e_descriptor e1 = e_descriptor e2 -> e_kind e1 = e_kind e2 -> i = j.

(* I2: at most one entry for a pair (file, name). *)
Definition I2 (es : list SymbolTableEntry) : Prop :=
  forall i j e1 e2,
    es !! i = Some e1 -> es !! j = Some e2 ->
    e_file e1 = e_file e2 -> e_name e1 = e_name e2 -> i = j.

(** *** The resolution loop, as the contract describes it *)

(* The candidate name after n rounds of clash resolution. *)
Fixpoint candidate (this : SymbolTable) (descriptor : AnyTypeDescriptorProto)
    (file : GeneratedFile) (requestedName kind : string) (n : nat) : string :=
  match n with
  | O => requestedName
  | S n' =>
      clashResolver this descriptor file requestedName kind (S n')
        (candidate this descriptor file requestedName kind n')
  end.

(* The calls of the resolver in the first n rounds. *)
Definition resolverCalls (this : SymbolTable)
    (descriptor : AnyTypeDescriptorProto) (file : GeneratedFile)
    (requestedName kind : string) (n : nat) : list ResolverCall :=
  map
    (fun count =>
       mkCall descriptor file requestedName kind (S count)
         (candidate this descriptor file requestedName kind count))
    (seq 0 n).


End SymbolTable.

(** ** A concrete set of collaborators, for the scenarios *)

Module Scenario.
(* Descriptors and files are numbered handles. *)
Definition handles : Collaborators := {|
  AnyTypeDescriptorProto := nat;
  GeneratedFile := nat;
  formatName := fun d => "message M" +:+ numberToString d;
  getFilename := fun f => "file" +:+ numberToString f +:+ ".ts"
|}.

Definition d1 : @AnyTypeDescriptorProto handles := 1.
Definition d2 : @AnyTypeDescriptorProto handles := 2.
Definition fileX : @GeneratedFile handles := 10.
Definition fileY : @GeneratedFile handles := 11.

(* A table with the default clash resolver. *)
Definition empty : @SymbolTable handles := new_SymbolTable None.

(* A table with the default clash resolver holding the given entries. *)
Definition holding (es : list (@SymbolTableEntry handles))
    : @SymbolTable handles :=
  {| entries := es; clashResolver := clashResolver empty |}.

(* The entries of the scenarios. *)
Definition fooClassX : @SymbolTableEntry handles :=
  mkEntry fileX d1 "Foo" "class".
Definition barClassX : @SymbolTableEntry handles :=
  mkEntry fileX d1 "Bar" "class".
Definition barClassY : @SymbolTableEntry handles :=
  mkEntry fileY d1 "Bar" "class".
Definition barInterfaceX : @SymbolTableEntry handles :=
  mkEntry fileX d1 "Bar" "interface".
Definition fooDefaultX : @SymbolTableEntry handles :=
  mkEntry fileX d1 "Foo" "default".


End Scenario.

(** ** Further vocabulary for the symbol table *)

Section Vocabulary.
Context `{Collaborators}.

(* I1 for one kind: at most one entry of that kind for a descriptor. *)
Definition I1_for (kind : string) (es : list SymbolTableEntry) : Prop :=
  forall i j e1 e2,
    es !! i = Some e1 -> es !! j = Some e2 ->
    e_kind e1 = kind -> e_kind e2 = kind ->
    e_descriptor e1 = e_descriptor e2 -> i = j.

(* The message of the error that refuses a second registration. *)
Definition duplicateMessage (requestedName : string)
    (descriptor : AnyTypeDescriptorProto) (kind : string)
    (found : SymbolTableEntry) : string :=
  "Cannot register name " +:+ dquote +:+ requestedName +:+ dquote
  +:+ " of kind " +:+ dquote +:+ kind +:+ dquote
  +:+ " for " +:+ formatName descriptor +:+ ". "
  +:+ "The descriptor is already registered in file " +:+ dquote
  +:+ getFilename (e_file found) +:+ dquote
  +:+ " with name " +:+ dquote +:+ e_name found +:+ dquote +:+ ". "
  +:+ "Use a different 'kind' to register multiple symbols for a descriptor.".

(* A table that was built with the default clash resolver. *)
Definition usesDefaultResolver (this : SymbolTable) : Prop :=
  clashResolver this = clashResolver (new_SymbolTable None).
End Vocabulary.

(** ** protoc.js *)

Module Protoc.
(* An installed release, as listInstalled() of ./util describes it. *)
Record Release : Type := mkRelease {
  protocPath : string;
  includePath : string
}.

(* What spawnSync returns: child.error, as it prints, and child.status. *)
Record Child : Type := mkChild {
  child_error : option string;
  child_status : option Z
}.

(* What a run of the script does: the lines written with console.error,
   the processes spawned with their arguments, and the argument of
   process.exit. *)
Record Run : Type := mkRun {
  stderr : list string;
  spawned : list (string * list string);
  exitCode : option Z
}.

(* for (let plugin of plugins) args.unshift("--plugin", plugin) *)
Definition addPlugins (plugins args : list string) : list string :=
  fold_left (fun args plugin => "--plugin" :: plugin :: args) plugins args.

(* The arguments protoc is called with. *)
Definition arguments (argv : list string) (release : Release)
    (plugins : list string) : list string :=
  let args :=
    (* pass all arguments to the process: process.argv.slice(2) *)
    (drop 2 argv
    (* add the "include" directory of the installed protoc *)
     ++ ["--proto_path"; includePath release])%list in
  addPlugins plugins args.

(* The script.  [installed] is listInstalled(), [plugins] is
   findProtocPlugins(process.cwd()), [spawnSync] runs the child. *)
Definition main (installed : list Release) (argv plugins : list string)
    (spawnSync : string -> list string -> Child) : Run :=
  match head installed with
  | None =>
      {| stderr :=
           ["protoc not found. Looks like something went wrong during installation."];
         spawned := [];
         exitCode := Some 1%Z |}
  | Some release =>
      let command := protocPath release in
      let args := arguments argv release plugins in
      let child := spawnSync command args in
      match child_error child with
      | Some error =>
          {| stderr := ["Unable to spawn protoc. " +:+ error];
             spawned := [(command, args)];
             exitCode := Some 1%Z |}
      | None =>
          {| stderr := [];
             spawned := [(command, args)];
             exitCode := child_status child |}
      end
  end.
End Protoc.

(** * Properties *)

(** ** Lookup and occupancy *)

Lemma find_app_None {A} (f : A -> bool) (l1 l2 : list A) :
  List.find f l1 = None -> List.find f (l1 ++ l2)%list = List.find f l2.
Proof.
  induction l1 as [|x l1 IH]; simpl; [done|].
  destruct (f x); [discriminate | exact IH].
Qed.

Section Lookup.
Context `{Collaborators}.
Implicit Types (this : SymbolTable) (e : SymbolTableEntry).

Lemma find_Some this descriptor kind e :
  find this descriptor kind = Some e ->
  e ∈ entries this /\ e_descriptor e = descriptor
  /\ e_kind e = default "default" kind.
Proof.
  unfold find. intros Hfind. apply find_some in Hfind as [Hin Hmatch].
  apply andb_true_iff in Hmatch as [Hd Hk].
  apply bool_decide_eq_true in Hd, Hk.
  split; [by apply list_elem_of_In | done].
Qed.

Lemma find_None this descriptor kind e :
  find this descriptor kind = None ->
  e ∈ entries this -> e_descriptor e = descriptor ->
  e_kind e <> default "default" kind.
Proof.
  unfold find. intros Hfind Hin Hd Hk.
  apply list_elem_of_In in Hin.
  pose proof (find_none _ _ Hfind e Hin) as Hno. simpl in Hno.
  rewrite !bool_decide_eq_true_2 in Hno by done. discriminate.
Qed.

(* find looks at the defaulted kind only. *)
Lemma find_default_kind this descriptor kind :
  find this descriptor (Some (default "default" kind))
  = find this descriptor kind.
Proof. reflexivity. Qed.

Lemma hasNameInFile_true this name file :
  hasNameInFile this name file = true <->
  exists e, e ∈ entries this /\ e_file e = file /\ e_name e = name.
Proof.
  unfold hasNameInFile. rewrite existsb_exists. split.
  - intros (e & Hin & Hmatch). exists e.
    apply andb_true_iff in Hmatch as [Hf Hn].
    apply bool_decide_eq_true in Hf, Hn.
    split; [by apply list_elem_of_In | done].
  - intros (e & Hin & Hf & Hn). exists e.
    split; [by apply list_elem_of_In |].
    by rewrite !bool_decide_eq_true_2.
Qed.

End Lookup.

(** ** The resolution loop and the shape of a registration *)

Section Registration.
Context `{Collaborators}.
Implicit Types (this : SymbolTable) (e : SymbolTableEntry).

(* The loop ends within the try budget. *)
Lemma findFreeName_terminates this descriptor file requestedName kind
    fuel name count calls :
  clashResolveMaxTries - count <= fuel ->
  is_Some (findFreeName this descriptor file requestedName kind fuel
             name count calls).
Proof.
  revert name count calls.
  induction fuel as [|fuel IH]; intros name count calls Hfuel; simpl.
  - rewrite bool_decide_eq_false_2 by lia.
    rewrite andb_false_r. eauto.
  - destruct (hasNameInFile this name file
              && bool_decide (count < clashResolveMaxTries)); [|eauto].
    apply IH. lia.
Qed.

(* When the loop ends, the name it holds is free or the budget is spent. *)
Lemma findFreeName_result this descriptor file requestedName kind
    fuel name count calls name' count' calls' :
  findFreeName this descriptor file requestedName kind fuel name count calls
    = Some (name', count', calls') ->
  hasNameInFile this name' file = false
  \/ (hasNameInFile this name' file = true
      /\ clashResolveMaxTries <= count').
Proof.
  revert name count calls.
  induction fuel as [|fuel IH]; intros name count calls; simpl.
  - destruct (hasNameInFile this name file) eqn:Htaken; simpl.
    + case_bool_decide; [discriminate|].
      intros [= <- <- <-]. right. split; [done | lia].
    + intros [= <- <- <-]. by left.
  - destruct (hasNameInFile this name file) eqn:Htaken; simpl.
    + case_bool_decide; [apply IH|].
      intros [= <- <- <-]. right. split; [done | lia].
    + intros [= <- <- <-]. by left.
Qed.

(* A call of register ends in one of two ways: an error and the same
   table, or a name that was free in the file and one more entry. *)
Lemma register_outcomes this requestedName descriptor file kind :
  exists calls,
    (exists err,
       register this requestedName descriptor file kind
       = Some (Thrown err, this, calls))
    \/ (exists name,
          register this requestedName descriptor file kind
          = Some (Returned name,
                  {| entries :=
                       entries this
                       ++ [mkEntry file descriptor name
                             (default "default" kind)];
                     clashResolver := clashResolver this |},
                  calls)
          /\ hasNameInFile this name file = false).
Proof.
  unfold register.
  destruct (has this descriptor _ None).
  - exists []. left. destruct (get this descriptor _); eauto.
  - destruct (findFreeName_terminates this descriptor file requestedName
                (default "default" kind) clashResolveMaxTries
                requestedName 0 []) as [[[name count] calls] Hloop]; [lia|].
    rewrite Hloop. exists calls.
    destruct (hasNameInFile this name file) eqn:Htaken; eauto.
Qed.

Lemma register_total this requestedName descriptor file kind :
  is_Some (register this requestedName descriptor file kind).
Proof.
  destruct (register_outcomes this requestedName descriptor file kind)
    as (calls & [[err ->] | (name & -> & _)]); eauto.
Qed.
End Registration.

(** ** Uniqueness of names within a file *)

Section FileUniqueness.
Context `{Collaborators}.
Implicit Types (this : SymbolTable) (e : SymbolTableEntry).

Lemma I2_nil : I2 [].
Proof. intros i j e1 e2 Hi. by rewrite lookup_nil in Hi. Qed.

Lemma I2_snoc (es : list SymbolTableEntry) e :
  I2 es ->
  (forall e', e' ∈ es -> e_file e' = e_file e -> e_name e' <> e_name e) ->
  I2 (es ++ [e]).
Proof.
  intros Hes Hfresh i j e1 e2 Hi Hj Hfile Hname.
  apply lookup_app_Some in Hi as [Hi | [Hi Hi']];
    apply lookup_app_Some in Hj as [Hj | [Hj Hj']].
  - by apply (Hes i j e1 e2).
  - apply list_lookup_singleton_Some in Hj' as [_ <-].
    exfalso. apply (Hfresh e1); [|done..].
    apply list_elem_of_lookup. eauto.
  - apply list_lookup_singleton_Some in Hi' as [_ <-].
    exfalso. apply (Hfresh e2); [|done..].
    apply list_elem_of_lookup. eauto.
  - apply list_lookup_singleton_Some in Hi' as [Hi' _].
    apply list_lookup_singleton_Some in Hj' as [Hj' _]. lia.
Qed.

Lemma register_I2 this requestedName descriptor file kind outcome this' calls :
  register this requestedName descriptor file kind
    = Some (outcome, this', calls) ->
  I2 (entries this) -> I2 (entries this').
Proof.
  intros Hreg Hinv.
  destruct (register_outcomes this requestedName descriptor file kind)
    as (calls0 & [[err Herr] | (name & Hok & Hfree)]).
  - rewrite Herr in Hreg. by injection Hreg as _ <- _.
  - rewrite Hok in Hreg. injection Hreg as _ <- _. simpl.
    apply I2_snoc; [done|]. simpl. intros e' Hin Hfile Hname.
    assert (hasNameInFile this name file = true) as Htaken
      by (apply hasNameInFile_true; eauto).
    congruence.
Qed.

Lemma perform_I2 this op : I2 (entries this) -> I2 (entries (perform this op)).
Proof.
  intros Hinv. destruct op as [requestedName descriptor file kind| | | |];
    simpl; try done.
  destruct (register this requestedName descriptor file kind)
    as [[[outcome this'] calls]|] eqn:Hreg; [|done].
  by eapply register_I2.
Qed.

Lemma performAll_I2 this ops :
  I2 (entries this) -> I2 (entries (performAll this ops)).
Proof.
  unfold performAll. revert this.
  induction ops as [|op ops IH]; intros this Hinv; simpl; [done|].
  apply IH. by apply perform_I2.
Qed.

(** C7.  Invariant I2 holds after every sequence of operations on a new
    table: a pair (file, name) has at most one entry, whatever the kind; so
    two entries of one file with the same name have the same descriptor and
    the same kind. *)
Theorem file_uniqueness_after_operations
    (resolver : option ClashResolver) (ops : list Operation) :
  let this := performAll (new_SymbolTable resolver) ops in
  I2 (entries this)
  /\ forall r1 r2,
       r1 ∈ entries this -> r2 ∈ entries this ->
       e_file r1 = e_file r2 -> e_name r1 = e_name r2 ->
       e_descriptor r1 = e_descriptor r2 /\ e_kind r1 = e_kind r2.
Proof.
  intros this.
  assert (I2 (entries this)) as Hinv
    by (apply performAll_I2, I2_nil).
  split; [done|].
  intros r1 r2 Hr1 Hr2 Hfile Hname.
  apply list_elem_of_lookup in Hr1 as [i Hi].
  apply list_elem_of_lookup in Hr2 as [j Hj].
  assert (i = j) as -> by by apply (Hinv i j r1 r2).
  assert (r1 = r2) as -> by congruence. done.
Qed.
End FileUniqueness.

(** ** Bounded clash resolution *)

Section BoundedResolution.
Context `{Collaborators}.
Implicit Types (this : SymbolTable).

Lemma resolverCalls_S this descriptor file requestedName kind n :
  resolverCalls this descriptor file requestedName kind (S n)
  = (resolverCalls this descriptor file requestedName kind n
     ++ [mkCall descriptor file requestedName kind (S n)
           (candidate this descriptor file requestedName kind n)])%list.
Proof. unfold resolverCalls. by rewrite seq_S, map_app. Qed.



End BoundedResolution.



(** ** Lookup that must succeed *)

Section FirstOccurrences.
Context {A : Type} `{EqDecision A}.
Implicit Types (l p : list A) (x value : A).

Lemma indexOf_from_skip p l value (index : Z) :
  value ∉ p ->
  indexOf_from (p ++ l) value index
  = indexOf_from l value (index + Z.of_nat (length p)).
Proof.
  revert index. induction p as [|x p IH]; intros index Hnotin; simpl.
  - f_equal. lia.
  - apply not_elem_of_cons in Hnotin as [Hne Hnotin].
    destruct (decide (x = value)) as [->|_]; [done|].
    rewrite IH by done. f_equal. lia.
Qed.

Lemma indexOf_from_within p l value (index : Z) :
  value ∈ p ->
  (index <= indexOf_from (p ++ l) value index < index + Z.of_nat (length p))%Z.
Proof.
  revert index. induction p as [|x p IH]; intros index Hin; simpl.
  - by apply elem_of_nil in Hin.
  - destruct (decide (x = value)) as [->|Hne]; [lia|].
    apply elem_of_cons in Hin as [->|Hin]; [done|].
    specialize (IH (index + 1)%Z Hin). lia.
Qed.

(* An element is kept exactly when it does not occur before its index. *)
Lemma isFirstOccurrence_spec p l value :
  isFirstOccurrence value (length p) (p ++ value :: l) = true <-> value ∉ p.
Proof.
  unfold isFirstOccurrence, indexOf. rewrite bool_decide_eq_true. split.
  - intros Hindex Hin.
    pose proof (indexOf_from_within p (value :: l) value 0 Hin). lia.
  - intros Hnotin. rewrite indexOf_from_skip by done. simpl.
    rewrite decide_True by done. lia.
Qed.

Lemma filter_from_first_occurrences p l :
  let kept := filter_from isFirstOccurrence l (p ++ l) (length p) in
  NoDup kept /\ forall x, x ∈ kept <-> x ∈ l /\ x ∉ p.
Proof.
  revert p. induction l as [|value l IH]; intros p; simpl.
  - split; [constructor|]. intros x. split.
    + intros Hin. by apply elem_of_nil in Hin.
    + intros [Hin _]. by apply elem_of_nil in Hin.
  - specialize (IH (p ++ [value])%list).
    rewrite <- app_assoc, length_app in IH. simpl in IH.
    rewrite Nat.add_1_r in IH. destruct IH as [Hnodup Hmem].
    destruct (isFirstOccurrence value (length p) (p ++ value :: l))
      eqn:Hfirst.
    + apply isFirstOccurrence_spec in Hfirst. split.
      * apply NoDup_cons. split; [|done].
        rewrite Hmem. intros [_ Hnotin]. apply Hnotin.
        apply elem_of_app. right. by apply list_elem_of_singleton.
      * intros x. rewrite !elem_of_cons, Hmem, elem_of_app,
          list_elem_of_singleton.
        destruct (decide (x = value)) as [->|Hne]; intuition congruence.
    + assert (value ∈ p) as Hin.
      { destruct (decide (value ∈ p)) as [|Hnotin]; [done|].
        apply (proj2 (isFirstOccurrence_spec p l value)) in Hnotin.
        congruence. }
      split; [done|].
      intros x. rewrite Hmem, elem_of_cons, elem_of_app,
        list_elem_of_singleton.
      intuition congruence.
Qed.

(* Filtering on first occurrences lists every element once. *)
Lemma filter_indexed_first_occurrences l :
  NoDup (filter_indexed isFirstOccurrence l)
  /\ forall x, x ∈ filter_indexed isFirstOccurrence l <-> x ∈ l.
Proof.
  destruct (filter_from_first_occurrences [] l) as [Hnodup Hmem].
  split; [done|]. intros x. unfold filter_indexed.
  rewrite (Hmem x). split; [by intros [? _]|].
  intros Hin. split; [done|]. apply not_elem_of_nil.
Qed.
End FirstOccurrences.

Section Get.
Context `{Collaborators}.
Implicit Types (this : SymbolTable) (e : SymbolTableEntry).

(** C9.  get returns the entry that find returns when there is one, and
    fails with SymbolNotFound when find returns none; the message then
    ends with the number of distinct files (compared by identity) that
    hold at least one entry of the table. *)
Theorem get_follows_find this descriptor kind :
  match find this descriptor kind with
  | Some e => get this descriptor kind = Returned e
  | None =>
      exists files : list GeneratedFile,
        NoDup files
        /\ (forall file,
              file ∈ files <-> exists e, e ∈ entries this /\ e_file e = file)
        /\ get this descriptor kind
           = Thrown
               (SymbolNotFound
                  ("Failed to find name for " +:+ formatName descriptor
                   +:+ " of kind " +:+ dquote +:+ default "default" kind
                   +:+ dquote +:+ ". " +:+ "Searched in "
                   +:+ numberToString (length files) +:+ " files."))
  end.
Proof.
  unfold get. rewrite find_default_kind.
  destruct (find this descriptor kind) as [e|]; [done|].
  destruct (filter_indexed_first_occurrences (map e_file (entries this)))
    as [Hnodup Hmem].
  eexists. split; [exact Hnodup|]. split; [|reflexivity].
  intros file. rewrite Hmem.
  change (map e_file (entries this)) with (e_file <$> entries this).
  rewrite list_elem_of_fmap. split.
  - intros (e & -> & Hin). eauto.
  - intros (e & Hin & <-). eauto.
Qed.
End Get.

(** ** The duplicate check of register *)

Section DuplicateCheck.
Context `{Collaborators}.
Implicit Types (this : SymbolTable) (e : SymbolTableEntry).

(* Called with two arguments, has looks for an entry of kind "default",
   whatever its second argument is. *)
Lemma has_two_arguments this descriptor b :
  has this descriptor b None
  = bool_decide (find this descriptor (Some "default") <> None).
Proof. reflexivity. Qed.

(* Called with three arguments, has does not look at the file. *)
Lemma has_three_arguments this descriptor file kind :
  has this descriptor (Some (inl file)) kind
  = bool_decide (find this descriptor kind <> None).
Proof. reflexivity. Qed.

(* get, as register calls it, with the kind already defaulted. *)
Lemma get_found this descriptor kind e :
  find this descriptor kind = Some e ->
  get this descriptor (Some (default "default" kind)) = Returned e.
Proof.
  intros Hfind. unfold get.
  change (find this descriptor (Some (default "default"
            (Some (default "default" kind)))))
    with (find this descriptor kind).
  by rewrite Hfind.
Qed.

Lemma get_not_found this descriptor kind :
  find this descriptor kind = None ->
  exists msg,
    get this descriptor (Some (default "default" kind))
    = Thrown (SymbolNotFound msg).
Proof.
  intros Hfind. unfold get.
  change (find this descriptor (Some (default "default"
            (Some (default "default" kind)))))
    with (find this descriptor kind).
  rewrite Hfind. eauto.
Qed.

(* register refuses a registration as a duplicate exactly when the
   descriptor has an entry of kind "default" and an entry of the kind
   asked for. *)
Lemma register_duplicate_iff this requestedName descriptor file kind :
  (exists msg calls,
     register this requestedName descriptor file kind
     = Some (Thrown (DuplicateRegistration msg), this, calls))
  <-> find this descriptor (Some "default") <> None
      /\ find this descriptor kind <> None.
Proof.
  unfold register. rewrite has_two_arguments.
  destruct (find this descriptor kind) as [found|] eqn:Hkind.
  - rewrite (get_found _ _ _ _ Hkind). split.
    + intros (msg & calls & Hreg). split; [|done].
      intros Hdefault. revert Hreg.
      rewrite bool_decide_eq_false_2 by (intros Hne; by apply Hne).
      destruct (findFreeName _ _ _ _ _ _ _ _ _) as [[[name count] calls']|];
        [|discriminate].
      destruct (hasNameInFile this name file); cbv zeta; discriminate.
    + intros [Hdefault _]. rewrite bool_decide_eq_true_2 by done. eauto.
  - destruct (get_not_found _ _ _ Hkind) as [msg' ->]. split.
    + intros (msg & calls & Hreg). exfalso. revert Hreg.
      case_bool_decide; [discriminate|].
      destruct (findFreeName _ _ _ _ _ _ _ _ _) as [[[name count] calls']|];
        [|discriminate].
      destruct (hasNameInFile this name file); cbv zeta; discriminate.
    + by intros [_ ?].
Qed.

(* With an entry of kind "default" and none of the kind asked for, the
   registration fails in the lookup of the entry to report. *)
Lemma register_lookup_failure this requestedName descriptor file kind :
  find this descriptor (Some "default") <> None ->
  find this descriptor kind = None ->
  exists msg,
    register this requestedName descriptor file kind
    = Some (Thrown (SymbolNotFound msg), this, []).
Proof.
  intros Hdefault Hkind. unfold register.
  rewrite has_two_arguments, bool_decide_eq_true_2 by done.
  destruct (get_not_found _ _ _ Hkind) as [msg ->]. eauto.
Qed.

(* A registration for a pair (descriptor, kind) without an entry, when it
   succeeds, is what find returns afterwards. *)
Lemma register_then_find this requestedName descriptor file kind
    name this' calls :
  find this descriptor kind = None ->
  register this requestedName descriptor file kind
    = Some (Returned name, this', calls) ->
  find this' descriptor kind
  = Some (mkEntry file descriptor name (default "default" kind)).
Proof.
  intros Hnone Hreg.
  destruct (register_outcomes this requestedName descriptor file kind)
    as (calls0 & [[err Herr] | (name0 & Hok & _)]); [congruence|].
  rewrite Hok in Hreg. injection Hreg as <- <- _.
  unfold find in *. simpl.
  rewrite find_app_None by done. simpl.
  by rewrite !bool_decide_eq_true_2.
Qed.
End DuplicateCheck.

(** ** The default clash resolver *)

Section DefaultClashResolver.
Context `{Collaborators}.

Lemma substring_whole (s : string) :
  String.substring 0 (String.length s) s = s.
Proof. induction s as [|c s IH]; simpl; [done | by rewrite IH]. Qed.

(* s.substring(1) drops the first character. *)
Lemma substring_from_1 (c : Ascii.ascii) (s : string) :
  substring_from 1 (String c s) = s.
Proof.
  unfold substring_from. simpl. rewrite Nat.sub_0_r. apply substring_whole.
Qed.

(* A name that does not end with the separator gets the separator and
   the try count appended. *)
Lemma defaultClashResolver_appends descriptor file requestedName kind
    tryCount :
  endsWith requestedName "$" = false ->
  defaultClashResolver descriptor file requestedName kind tryCount
  = requestedName +:+ "$" +:+ numberToString tryCount.
Proof. intros Hplain. unfold defaultClashResolver. by rewrite Hplain. Qed.

(* A name that ends with the separator loses its first character, and
   keeps the separator it ends with. *)
Lemma defaultClashResolver_drops_first descriptor file c rest kind tryCount :
  endsWith (String c rest) "$" = true ->
  defaultClashResolver descriptor file (String c rest) kind tryCount
  = rest +:+ "$" +:+ numberToString tryCount.
Proof.
  intros Hsep. unfold defaultClashResolver.
  by rewrite Hsep, substring_from_1.
Qed.
End DefaultClashResolver.

(** ** Conversion of a long *)

(** C10.  reflectionLongConvert is defined for every type argument: it
    returns long.toBigInt() for BIGINT, long.toNumber() for NUMBER, and
    long.toString() for STRING and for undefined, so that an undefined type
    behaves as STRING does. *)
Theorem reflectionLongConvert_by_type {Long JsString JsNumber JsBigInt : Type}
    (toBigInt : Long -> JsBigInt) (toNumber : Long -> JsNumber)
    (toString : Long -> JsString) (long : Long) (type : option LongType) :
  reflectionLongConvert toBigInt toNumber toString long type
  = match type with
    | Some BIGINT => AsBigInt (toBigInt long)
    | Some NUMBER => AsNumber (toNumber long)
    | Some STRING => AsString (toString long)
    | None => AsString (toString long)
    end
  /\ reflectionLongConvert toBigInt toNumber toString long None
     = reflectionLongConvert toBigInt toNumber toString long (Some STRING).
Proof. split; [by destruct type as [[]|] | reflexivity]. Qed.

(** ** The scenarios on which the table departs from its contract

    All of them but that of the default clash resolver come from one place:
    register asks [has(descriptor, kind)], and has receives the kind as its
    second parameter, which it does not read, and looks for kind "default". *)

Section Scenarios.
Import Scenario.

(** C1 (code bug).  After register("Foo", d1, fileX, "class"), the call
    register("Bar", d1, fileX, "class") is not refused: it returns "Bar"
    and adds a second entry for (d1, "class").  A registration of kind
    "interface" succeeds, as expected. *)
Theorem register_twice_for_one_kind :
  register empty "Foo" d1 fileX (Some "class")
  = Some (Returned "Foo", holding [fooClassX], [])
  /\ register (holding [fooClassX]) "Bar" d1 fileX (Some "class")
     = Some (Returned "Bar", holding [fooClassX; barClassX], [])
  /\ register (holding [fooClassX]) "Bar" d1 fileX (Some "interface")
     = Some (Returned "Bar", holding [fooClassX; barInterfaceX], []).
Proof. repeat split; vm_compute; reflexivity. Qed.

(** C2 (code bug).  Two registrations of d1 under the kind "class" leave
    two entries for the pair (d1, "class"): invariant I1 does not hold
    after this sequence of operations. *)
Theorem entity_uniqueness_broken :
  let this :=
    performAll empty
      [Register "Foo" d1 fileX (Some "class");
       Register "Bar" d1 fileX (Some "class")] in
  entries this = [fooClassX; barClassX] /\ ~ I1 (entries this).
Proof.
  intros this.
  assert (entries this = [fooClassX; barClassX]) as Hentries
    by (vm_compute; reflexivity).
  split; [exact Hentries|]. rewrite Hentries. intros Huniq.
  specialize (Huniq 0 1 fooClassX barClassX eq_refl eq_refl eq_refl eq_refl).
  discriminate.
Qed.

(** C3 (code bug).  With one entry, for (d1, "class") in fileX:
    find(d1, "class") returns the entry while has(d1, "class") is false,
    and has(d1, fileY, "class") is true while fileY holds no entry. *)
Theorem has_disagrees_with_find :
  let this := holding [fooClassX] in
  find this d1 (Some "class") = Some fooClassX
  /\ has this d1 (Some (inr "class")) None = false
  /\ list_ this fileY (Some "class") = []
  /\ has this d1 (Some (inl fileY)) (Some "class") = true.
Proof. repeat split; vm_compute; reflexivity. Qed.

(** C4 (code bug).  For the requested name "Foo$" and try count 1 the
    default clash resolver returns "oo$$1": the first character is
    removed and the trailing separator stays. *)
Theorem defaultClashResolver_trailing_separator :
  defaultClashResolver d1 fileX "Foo$" "default" 1 = "oo$$1".
Proof. vm_compute. reflexivity. Qed.

(** C5 (code bug).  register("Bar", d1, fileY, "class") succeeds on a
    table that already holds "Foo" for (d1, "class") in fileX, and the
    find(d1, "class") that follows returns the older entry, whose name is
    "Foo" and whose file is fileX. *)
Theorem find_after_second_registration :
  register empty "Foo" d1 fileX (Some "class")
  = Some (Returned "Foo", holding [fooClassX], [])
  /\ register (holding [fooClassX]) "Bar" d1 fileY (Some "class")
     = Some (Returned "Bar", holding [fooClassX; barClassY], [])
  /\ find (holding [fooClassX; barClassY]) d1 (Some "class")
     = Some fooClassX.
Proof. repeat split; vm_compute; reflexivity. Qed.

(** C8 (code bug).  After register("Foo", d1, fileX), with the default
    kind, the call register("Bar", d1, fileX, "class") raises the error
    of a failed lookup, which is neither DuplicateRegistration nor
    ClashResolutionExhausted; the table is left as it was. *)
Theorem register_fails_in_lookup :
  register empty "Foo" d1 fileX None
  = Some (Returned "Foo", holding [fooDefaultX], [])
  /\ register (holding [fooDefaultX]) "Bar" d1 fileX (Some "class")
     = Some (Thrown
               (SymbolNotFound
                  ("Failed to find name for message M1 of kind "
                   +:+ dquote +:+ "class" +:+ dquote
                   +:+ ". Searched in 1 files.")),
             holding [fooDefaultX], []).
Proof. repeat split; vm_compute; reflexivity. Qed.
End Scenarios.

(** * Further properties of the code *)

(** ** Which name register settles on *)

Section Resolution.
Context `{Collaborators}.
Implicit Types (this : SymbolTable).

(* From round [count] on, the loop stops at the first candidate that is free,
   or at the budget. *)
Lemma findFreeName_candidates this descriptor file requestedName kind fuel :
  forall count,
    count <= clashResolveMaxTries ->
    clashResolveMaxTries - count <= fuel ->
    exists n,
      count <= n <= clashResolveMaxTries
      /\ findFreeName this descriptor file requestedName kind fuel
           (candidate this descriptor file requestedName kind count) count
           (resolverCalls this descriptor file requestedName kind count)
         = Some (candidate this descriptor file requestedName kind n, n,
                 resolverCalls this descriptor file requestedName kind n)
      /\ (forall i, count <= i < n ->
            hasNameInFile this
              (candidate this descriptor file requestedName kind i) file
            = true)
      /\ (n < clashResolveMaxTries ->
            hasNameInFile this
              (candidate this descriptor file requestedName kind n) file
            = false).
Proof.
  induction fuel as [|fuel IH]; intros count Hle Hfuel; cbn [findFreeName];
    destruct (hasNameInFile this
                (candidate this descriptor file requestedName kind count) file)
      eqn:Htaken;
    try (exists count; split; [lia|]; split; [done|]; split;
         [intros i Hi; lia | done]);
    case_bool_decide as Hlt; simpl;
    try (exists count; split; [lia|]; split; [done|]; split;
         [intros i Hi; lia | intros Hn; lia]).
  - lia.
  - rewrite <- resolverCalls_S.
    destruct (IH (S count)) as (n & Hn & Hloop & Hbefore & Hat); [lia..|].
    exists n. split; [lia|]. split; [exact Hloop|]. split; [|exact Hat].
    intros i Hi. destruct (decide (i = count)) as [->|Hne]; [done|].
    apply Hbefore. lia.
Qed.

(* The two ways a registration ends once the duplicate check has passed. *)
Lemma register_resolution this requestedName descriptor file kind :
  has this descriptor (Some (inr (default "default" kind))) None = false ->
  exists n,
    n <= clashResolveMaxTries
    /\ (forall i, i < n ->
          hasNameInFile this
            (candidate this descriptor file requestedName
               (default "default" kind) i) file = true)
    /\ ((hasNameInFile this
           (candidate this descriptor file requestedName
              (default "default" kind) n) file = false
         /\ register this requestedName descriptor file kind
            = Some (Returned
                      (candidate this descriptor file requestedName
                         (default "default" kind) n),
                    {| entries :=
                         entries this
                         ++ [mkEntry file descriptor
                               (candidate this descriptor file requestedName
                                  (default "default" kind) n)
                               (default "default" kind)];
                       clashResolver := clashResolver this |},
                    resolverCalls this descriptor file requestedName
                      (default "default" kind) n))
        \/ (n = clashResolveMaxTries
            /\ hasNameInFile this
                 (candidate this descriptor file requestedName
                    (default "default" kind) n) file = true
            /\ exists msg,
                 register this requestedName descriptor file kind
                 = Some (Thrown (ClashResolutionExhausted msg), this,
                         resolverCalls this descriptor file requestedName
                           (default "default" kind) n))).
Proof.
  intros Hcheck.
  destruct (findFreeName_candidates this descriptor file requestedName
              (default "default" kind) clashResolveMaxTries 0)
    as (n & Hn & Hloop & Hbefore & Hat); [lia..|].
  change (resolverCalls this descriptor file requestedName
            (default "default" kind) 0) with (@nil ResolverCall) in Hloop.
  change (candidate this descriptor file requestedName
            (default "default" kind) 0) with requestedName in Hloop.
  exists n. split; [lia|]. split; [intros i Hi; apply Hbefore; lia|].
  unfold register. rewrite Hcheck, Hloop.
  destruct (hasNameInFile this
              (candidate this descriptor file requestedName
                 (default "default" kind) n) file) eqn:Htaken.
  - right. split; [|split; [done | eauto]].
    destruct (decide (n < clashResolveMaxTries)) as [Hlt|]; [|lia].
    specialize (Hat Hlt). congruence.
  - left. done.
Qed.
End Resolution.

Section ResolutionOutcome.
Context `{Collaborators}.
Implicit Types (this : SymbolTable).

(* When the duplicate check fires, register throws before the loop. *)
Lemma register_refused this requestedName descriptor file kind :
  has this descriptor (Some (inr (default "default" kind))) None = true ->
  (exists msg,
     register this requestedName descriptor file kind
     = Some (Thrown (DuplicateRegistration msg), this, []))
  \/ (exists msg,
        register this requestedName descriptor file kind
        = Some (Thrown (SymbolNotFound msg), this, [])).
Proof.
  intros Hcheck. unfold register. rewrite Hcheck.
  destruct (find this descriptor kind) as [found|] eqn:Hkind.
  - rewrite (get_found _ _ _ _ Hkind). eauto.
  - destruct (get_not_found _ _ _ Hkind) as [msg ->]. eauto.
Qed.

(** X1.  Once the duplicate check has passed, register settles on the first
    free candidate: if the candidates of rounds 0 to n - 1 are taken in the
    file and the candidate of round n <= 100 is free, register returns that
    candidate after exactly n calls of the resolver and appends the entry
    {file, descriptor, kind, name} for it. *)
Theorem register_returns_first_free_candidate
    this requestedName descriptor file kind n :
  has this descriptor (Some (inr (default "default" kind))) None = false ->
  n <= 100 ->
  (forall i, i < n ->
     hasNameInFile this
       (candidate this descriptor file requestedName
          (default "default" kind) i) file = true) ->
  hasNameInFile this
    (candidate this descriptor file requestedName (default "default" kind) n)
    file = false ->
  register this requestedName descriptor file kind
  = Some (Returned
            (candidate this descriptor file requestedName
               (default "default" kind) n),
          {| entries :=
               entries this
               ++ [mkEntry file descriptor
                     (candidate this descriptor file requestedName
                        (default "default" kind) n)
                     (default "default" kind)];
             clashResolver := clashResolver this |},
          resolverCalls this descriptor file requestedName
            (default "default" kind) n).
Proof.
  intros Hcheck Hn Htaken Hfree.
  destruct (register_resolution this requestedName descriptor file kind Hcheck)
    as (m & Hm & Hbefore & Hend).
  assert (m = n) as ->.
  { destruct (Nat.lt_trichotomy m n) as [Hlt | [Heq | Hgt]]; [|done|].
    - specialize (Htaken m Hlt).
      destruct Hend as [[Hfree' _] | [Hmax _]];
        [congruence | unfold clashResolveMaxTries in Hmax; lia].
    - specialize (Hbefore n Hgt). congruence. }
  destruct Hend as [[_ Hreg] | [_ [Htaken' _]]]; [exact Hreg | congruence].
Qed.

(** X2.  Whatever the table and the resolver, one call of register calls the
    resolver at most 100 times, and the calls it makes are those of rounds
    1, 2, ..., n in this order, each with the candidate that just failed.
    A registration refused at the duplicate check makes no call, one that
    exhausts the budget makes exactly 100, and one that succeeds returns the
    candidate of its last round. *)
Theorem register_calls_resolver_in_order
    this requestedName descriptor file kind :
  exists outcome this' n,
    n <= 100
    /\ register this requestedName descriptor file kind
       = Some (outcome, this',
               resolverCalls this descriptor file requestedName
                 (default "default" kind) n)
    /\ match outcome with
       | Returned name =>
           name = candidate this descriptor file requestedName
                    (default "default" kind) n
       | Thrown (DuplicateRegistration _) => n = 0
       | Thrown (SymbolNotFound _) => n = 0
       | Thrown (ClashResolutionExhausted _) => n = 100
       end.
Proof.
  destruct (has this descriptor (Some (inr (default "default" kind))) None)
    eqn:Hcheck.
  - destruct (register_refused this requestedName descriptor file kind Hcheck)
      as [[msg Hreg] | [msg Hreg]]; rewrite Hreg;
      eexists _, _, 0; (split; [lia|]); (split; reflexivity).
  - destruct (register_resolution this requestedName descriptor file kind
                Hcheck) as (n & Hn & _ & [[_ Hreg] | (Hmax & _ & msg & Hreg)]);
      rewrite Hreg; eexists _, _, n; (split; [exact Hn|]);
      (split; [reflexivity|]); [reflexivity | exact Hmax].
Qed.

(** X3.  register fails with ClashResolutionExhausted exactly when the
    duplicate check passes and the requested name and the candidates of
    rounds 1 to 100 are all taken in the file. *)
Theorem register_exhausted_iff this requestedName descriptor file kind :
  (exists msg calls,
     register this requestedName descriptor file kind
     = Some (Thrown (ClashResolutionExhausted msg), this, calls))
  <-> has this descriptor (Some (inr (default "default" kind))) None = false
      /\ forall i, i <= 100 ->
           hasNameInFile this
             (candidate this descriptor file requestedName
                (default "default" kind) i) file = true.
Proof.
  split.
  - intros (msg & calls & Hreg).
    destruct (has this descriptor (Some (inr (default "default" kind))) None)
      eqn:Hcheck.
    + destruct (register_refused this requestedName descriptor file kind
                  Hcheck) as [[msg' Hreg'] | [msg' Hreg']]; congruence.
    + split; [done|].
      destruct (register_resolution this requestedName descriptor file kind
                  Hcheck)
        as (n & Hn & Hbefore & [[_ Hreg'] | (-> & Htaken & _)]);
        [congruence|].
      intros i Hi. destruct (decide (i = clashResolveMaxTries)) as [->|Hne];
        [done|].
      apply Hbefore. unfold clashResolveMaxTries in *. lia.
  - intros [Hcheck Htaken].
    destruct (register_resolution this requestedName descriptor file kind
                Hcheck)
      as (n & Hn & _ & [[Hfree _] | (_ & _ & msg & Hreg)]); [|eauto].
    rewrite Htaken in Hfree by exact Hn. discriminate.
Qed.
End ResolutionOutcome.

(** X1, witness: fileX holds "Foo"; registering "Foo" for d2 with the default
    resolver settles on the candidate of round 1. *)
Lemma register_returns_first_free_candidate_witness :
  register (Scenario.holding [Scenario.fooClassX]) "Foo" Scenario.d2
    Scenario.fileX (Some "class")
  = Some (Returned
            (candidate (Scenario.holding [Scenario.fooClassX]) Scenario.d2
               Scenario.fileX "Foo" "class" 1),
          {| entries :=
               [Scenario.fooClassX;
                mkEntry Scenario.fileX Scenario.d2
                  (candidate (Scenario.holding [Scenario.fooClassX])
                     Scenario.d2 Scenario.fileX "Foo" "class" 1) "class"];
             clashResolver :=
               clashResolver (Scenario.holding [Scenario.fooClassX]) |},
          resolverCalls (Scenario.holding [Scenario.fooClassX]) Scenario.d2
            Scenario.fileX "Foo" "class" 1).
Proof.
  apply (register_returns_first_free_candidate
           (Scenario.holding [Scenario.fooClassX]) "Foo" Scenario.d2
           Scenario.fileX (Some "class") 1).
  - reflexivity.
  - lia.
  - intros i Hi. assert (i = 0) as -> by lia. reflexivity.
  - reflexivity.
Defined.

(** ** The table only grows *)

Lemma find_app_Some {A} (f : A -> bool) (l1 l2 : list A) (x : A) :
  List.find f l1 = Some x -> List.find f (l1 ++ l2)%list = Some x.
Proof.
  induction l1 as [|y l1 IH]; simpl; [discriminate|].
  destruct (f y); [done | exact IH].
Qed.

Section Growth.
Context `{Collaborators}.
Implicit Types (this : SymbolTable) (e : SymbolTableEntry).

(** X4.  A call of register is all or nothing: either it throws and the
    table is the one it was given, or it returns a name that was free in the
    file and the table has exactly one more entry, {file, descriptor, kind,
    name}, after the old ones, with the same resolver. *)
Theorem register_all_or_nothing this requestedName descriptor file kind :
  exists outcome this' calls,
    register this requestedName descriptor file kind
    = Some (outcome, this', calls)
    /\ match outcome with
       | Thrown _ => this' = this
       | Returned name =>
           entries this'
           = (entries this
              ++ [mkEntry file descriptor name (default "default" kind)])%list
           /\ clashResolver this' = clashResolver this
           /\ hasNameInFile this name file = false
       end.
Proof.
  destruct (register_outcomes this requestedName descriptor file kind)
    as (calls & [[err Hreg] | (name & Hreg & Hfree)]);
    rewrite Hreg; eexists _, _, _; (split; [reflexivity|]); simpl; done.
Qed.

Lemma perform_grows this op :
  entries this `prefix_of` entries (perform this op)
  /\ clashResolver (perform this op) = clashResolver this.
Proof.
  destruct op as [requestedName descriptor file kind| | | |]; simpl;
    try done.
  destruct (register_outcomes this requestedName descriptor file kind)
    as (calls & [[err ->] | (name & -> & _)]); simpl; [done|].
  split; [by apply prefix_app_r | done].
Qed.

Lemma performAll_grows this (ops : list Operation) :
  entries this `prefix_of` entries (performAll this ops)
  /\ clashResolver (performAll this ops) = clashResolver this.
Proof.
  unfold performAll. revert this.
  induction ops as [|op ops IH]; intros this; simpl; [done|].
  destruct (IH (perform this op)) as [Hprefix Hresolver].
  destruct (perform_grows this op) as [Hstep Hstep'].
  split; [by etrans | congruence].
Qed.

(** X5.  The table is append-only: after any sequence of operations the
    entries the table had are still there, unchanged and in their places,
    before the new ones; and the resolver is the one given at
    construction. *)
Theorem entries_append_only this (ops : list Operation) :
  entries this `prefix_of` entries (performAll this ops)
  /\ clashResolver (performAll this ops) = clashResolver this.
Proof. apply performAll_grows. Qed.

(** X6.  An answer of find is final: once find(descriptor, kind) returns an
    entry, it returns the same entry after any further sequence of
    operations. *)
Theorem find_stable this descriptor kind e (ops : list Operation) :
  find this descriptor kind = Some e ->
  find (performAll this ops) descriptor kind = Some e.
Proof.
  intros Hfind.
  destruct (performAll_grows this ops) as [[added Hadded] _].
  unfold find in *. rewrite Hadded. by apply find_app_Some.
Qed.
End Growth.

(** X6, witness: the entry found for (d1, "class") is still the answer after
    two more registrations, one of them for the same descriptor and kind. *)
Lemma find_stable_witness :
  find (Scenario.holding [Scenario.fooClassX]) Scenario.d1 (Some "class")
  = Some Scenario.fooClassX
  /\ find
       (performAll (Scenario.holding [Scenario.fooClassX])
          [Register "Bar" Scenario.d1 Scenario.fileY (Some "class");
           Register "Foo" Scenario.d2 Scenario.fileX None])
       Scenario.d1 (Some "class")
     = Some Scenario.fooClassX.
Proof.
  split; [reflexivity|].
  apply (find_stable (Scenario.holding [Scenario.fooClassX]) Scenario.d1
           (Some "class") Scenario.fooClassX).
  reflexivity.
Defined.

(** ** Listing the names of a file *)

Lemma filter_sublist {A} (f : A -> bool) (l : list A) :
  List.filter f l `sublist_of` l.
Proof.
  induction l as [|x l IH]; simpl; [constructor|].
  destruct (f x); by constructor.
Qed.

Lemma elem_of_List_filter {A} (f : A -> bool) (l : list A) (x : A) :
  x ∈ List.filter f l <-> x ∈ l /\ f x = true.
Proof. by rewrite !list_elem_of_In, filter_In. Qed.

Section Listing.
Context `{Collaborators}.
Implicit Types (this : SymbolTable) (e : SymbolTableEntry).

Lemma list_sublist this file kind :
  list_ this file kind `sublist_of` entries this.
Proof.
  unfold list_. destruct kind as [k|]; [|apply filter_sublist].
  etrans; apply filter_sublist.
Qed.

Lemma elem_of_list_ this file kind e :
  e ∈ list_ this file kind
  <-> e ∈ entries this /\ e_file e = file
      /\ forall k, kind = Some k -> e_kind e = k.
Proof.
  unfold list_. destruct kind as [k|].
  - rewrite !elem_of_List_filter, !bool_decide_eq_true. split.
    + intros [[Hin Hfile] Hkind]. split; [done|]. split; [done|].
      by intros k' [= <-].
    + intros (Hin & Hfile & Hkind). split; [done|]. by apply Hkind.
  - rewrite elem_of_List_filter, bool_decide_eq_true. split.
    + intros [Hin Hfile]. split; [done|]. split; [done|]. by intros k' [=].
    + intros (Hin & Hfile & _). done.
Qed.

(** X7.  list(file) and list(file, kind) return entries of the table in the
    order of registration, and exactly those whose file is the given file
    and, when a kind is given, whose kind is the given kind. *)
Theorem list_in_registration_order this file kind :
  list_ this file kind `sublist_of` entries this
  /\ forall e,
       e ∈ list_ this file kind
       <-> e ∈ entries this /\ e_file e = file
           /\ forall k, kind = Some k -> e_kind e = k.
Proof. split; [apply list_sublist | intros e; apply elem_of_list_]. Qed.

Lemma I2_NoDup (es : list SymbolTableEntry) : I2 es -> NoDup es.
Proof.
  intros Hinv. apply NoDup_alt. intros i j e Hi Hj.
  by apply (Hinv i j e e).
Qed.

(** X8.  list never shows a name twice: after any sequence of operations on
    a new table, the names of the entries that list(file) or
    list(file, kind) returns are pairwise distinct. *)
Theorem list_names_distinct (resolver : option ClashResolver)
    (ops : list Operation) file kind :
  NoDup (map e_name (list_ (performAll (new_SymbolTable resolver) ops) file kind)).
Proof.
  set (this := performAll (new_SymbolTable resolver) ops).
  assert (I2 (entries this)) as Hinv by apply performAll_I2, I2_nil.
  pose proof (list_sublist this file kind) as Hsub.
  change (map e_name ?l) with (e_name <$> l).
  apply NoDup_fmap_2_strong.
  - intros e1 e2 Hin1 Hin2 Hname.
    apply elem_of_list_ in Hin1 as (Hin1 & Hfile1 & _).
    apply elem_of_list_ in Hin2 as (Hin2 & Hfile2 & _).
    apply list_elem_of_lookup in Hin1 as [i Hi].
    apply list_elem_of_lookup in Hin2 as [j Hj].
    assert (i = j) as -> by (apply (Hinv i j e1 e2); congruence).
    congruence.
  - eapply sublist_NoDup; [|exact Hsub]. by apply I2_NoDup.
Qed.

(** X9.  A successful registration shows at the end of the listing of its
    file, with and without its kind, and changes the listing of no other
    file. *)
Theorem list_after_register
    this requestedName descriptor file kind name this' calls :
  register this requestedName descriptor file kind
    = Some (Returned name, this', calls) ->
  list_ this' file None
  = (list_ this file None
     ++ [mkEntry file descriptor name (default "default" kind)])%list
  /\ list_ this' file (Some (default "default" kind))
     = (list_ this file (Some (default "default" kind))
        ++ [mkEntry file descriptor name (default "default" kind)])%list
  /\ forall file' kind',
       file' <> file -> list_ this' file' kind' = list_ this file' kind'.
Proof.
  intros Hreg.
  destruct (register_outcomes this requestedName descriptor file kind)
    as (calls0 & [[err Herr] | (name0 & Hok & _)]); [congruence|].
  rewrite Hok in Hreg. injection Hreg as <- <- _.
  unfold list_. simpl. split; [|split].
  - rewrite List.filter_app. simpl. by rewrite bool_decide_eq_true_2.
  - rewrite !List.filter_app. simpl. rewrite bool_decide_eq_true_2 by done.
    simpl. by case_bool_decide.
  - intros file' kind' Hother. rewrite List.filter_app. simpl.
    rewrite bool_decide_eq_false_2 by done. by rewrite app_nil_r.
Qed.
End Listing.

(** X9, witness: registering "Foo" for d2 in fileX, where "Foo" is taken,
    puts the entry named "Foo$1" at the end of the listing of fileX. *)
Lemma list_after_register_witness :
  list_
    (Scenario.holding
       [Scenario.fooClassX;
        mkEntry Scenario.fileX Scenario.d2 "Foo$1" "class"])
    Scenario.fileX None
  = [Scenario.fooClassX; mkEntry Scenario.fileX Scenario.d2 "Foo$1" "class"].
Proof.
  refine (proj1
            (list_after_register (Scenario.holding [Scenario.fooClassX])
               "Foo" Scenario.d2 Scenario.fileX (Some "class") "Foo$1"
               (Scenario.holding
                  [Scenario.fooClassX;
                   mkEntry Scenario.fileX Scenario.d2 "Foo$1" "class"])
               [mkCall Scenario.d2 Scenario.fileX "Foo" "class" 1 "Foo"] _)).
  vm_compute. reflexivity.
Defined.

(** ** Registrations of the default kind *)

Section DefaultKind.
Context `{Collaborators}.
Implicit Types (this : SymbolTable) (e : SymbolTableEntry).

Lemma I1_for_snoc kind (es : list SymbolTableEntry) e :
  I1_for kind es ->
  (forall e', e' ∈ es -> e_kind e' = kind -> e_kind e = kind ->
     e_descriptor e' <> e_descriptor e) ->
  I1_for kind (es ++ [e]).
Proof.
  intros Hes Hfresh i j e1 e2 Hi Hj Hk1 Hk2 Hdesc.
  apply lookup_app_Some in Hi as [Hi | [Hi Hi']];
    apply lookup_app_Some in Hj as [Hj | [Hj Hj']].
  - by apply (Hes i j e1 e2).
  - apply list_lookup_singleton_Some in Hj' as [_ <-].
    exfalso. apply (Hfresh e1); [|done..].
    apply list_elem_of_lookup. eauto.
  - apply list_lookup_singleton_Some in Hi' as [_ <-].
    exfalso. apply (Hfresh e2); [|done..].
    apply list_elem_of_lookup. eauto.
  - apply list_lookup_singleton_Some in Hi' as [Hi' _].
    apply list_lookup_singleton_Some in Hj' as [Hj' _]. lia.
Qed.

(* A registration that succeeds found no entry of kind "default" for the
   descriptor. *)
Lemma register_success_check this requestedName descriptor file kind
    name this' calls :
  register this requestedName descriptor file kind
    = Some (Returned name, this', calls) ->
  find this descriptor (Some "default") = None.
Proof.
  intros Hreg.
  destruct (has this descriptor (Some (inr (default "default" kind))) None)
    eqn:Hcheck.
  - destruct (register_refused this requestedName descriptor file kind Hcheck)
      as [[msg Hreg'] | [msg Hreg']]; congruence.
  - rewrite has_two_arguments in Hcheck.
    apply bool_decide_eq_false in Hcheck.
    destruct (find this descriptor (Some "default")) as [e|]; [|done].
    exfalso. by apply Hcheck.
Qed.

Lemma perform_I1_default this op :
  I1_for "default" (entries this) ->
  I1_for "default" (entries (perform this op)).
Proof.
  intros Hinv. destruct op as [requestedName descriptor file kind| | | |];
    simpl; try done.
  destruct (register_outcomes this requestedName descriptor file kind)
    as (calls & [[err ->] | (name & Hreg & _)]); [done|].
  rewrite Hreg. simpl.
  apply I1_for_snoc; [done|]. simpl. intros e' Hin Hkind' _ Hdesc.
  apply register_success_check in Hreg.
  by apply (find_None this descriptor (Some "default") e').
Qed.

(** X10.  For the default kind the table keeps entity uniqueness: after any
    sequence of operations on a new table, a descriptor has at most one
    entry of kind "default". *)
Theorem default_kind_unique (resolver : option ClashResolver)
    (ops : list Operation) :
  I1_for "default" (entries (performAll (new_SymbolTable resolver) ops)).
Proof.
  assert (forall this, I1_for "default" (entries this) ->
            I1_for "default" (entries (performAll this ops))) as Hall.
  { unfold performAll. induction ops as [|op ops IH]; intros this Hinv;
      simpl; [done|].
    apply IH. by apply perform_I1_default. }
  apply Hall. intros i j e1 e2 Hi. simpl in Hi. by rewrite lookup_nil in Hi.
Qed.

(** X11.  A second registration of the default kind is refused: when the
    table has an entry of kind "default" for the descriptor, register with
    the default kind throws DuplicateRegistration, calls no resolver and
    leaves the table as it was; the message names the requested name, the
    kind, the descriptor, and the file and name of the entry found. *)
Theorem register_default_kind_twice
    this requestedName descriptor file kind found :
  default "default" kind = "default" ->
  find this descriptor kind = Some found ->
  register this requestedName descriptor file kind
  = Some (Thrown
            (DuplicateRegistration
               (duplicateMessage requestedName descriptor "default" found)),
          this, []).
Proof.
  intros Hkind Hfound. unfold register.
  rewrite has_two_arguments, (get_found _ _ _ _ Hfound). rewrite Hkind.
  assert (find this descriptor (Some "default") = Some found) as ->.
  { rewrite <- Hfound, <- Hkind. apply find_default_kind. }
  by rewrite bool_decide_eq_true_2.
Qed.
End DefaultKind.

(** X11, witness: fileX holds "Foo" of kind "default" for d1; registering
    "Bar" for d1 without a kind is refused, with the message of the
    duplicate. *)
Lemma register_default_kind_twice_witness :
  register (Scenario.holding [Scenario.fooDefaultX]) "Bar" Scenario.d1
    Scenario.fileY None
  = Some (Thrown
            (DuplicateRegistration
               ("Cannot register name " +:+ dquote +:+ "Bar" +:+ dquote
                +:+ " of kind " +:+ dquote +:+ "default" +:+ dquote
                +:+ " for message M1. The descriptor is already registered in file "
                +:+ dquote +:+ "file10.ts" +:+ dquote +:+ " with name "
                +:+ dquote +:+ "Foo" +:+ dquote
                +:+ ". Use a different 'kind' to register multiple symbols for a descriptor.")),
          Scenario.holding [Scenario.fooDefaultX], []).
Proof.
  apply (register_default_kind_twice (Scenario.holding [Scenario.fooDefaultX])
           "Bar" Scenario.d1 Scenario.fileY None Scenario.fooDefaultX);
    reflexivity.
Defined.

(** ** The default clash resolver in register *)

Lemma string_length_app (s1 s2 : string) :
  String.length (s1 +:+ s2) = String.length s1 + String.length s2.
Proof. induction s1 as [|c s1 IH]; simpl; [done | by rewrite IH]. Qed.

Lemma pretty_N_go_length (x : N) (s : string) :
  String.length s <= String.length (pretty_N_go x s).
Proof.
  revert s. induction (N.lt_wf_0 x) as [x _ IH]; intros s.
  destruct (decide (x = 0)%N) as [->|Hpos]; [by rewrite pretty_N_go_0|].
  rewrite pretty_N_go_step by lia.
  etrans; [|apply IH; apply N.div_lt; lia]. simpl. lia.
Qed.

(* The decimal form of a number has at least one digit. *)
Lemma numberToString_nonempty (n : nat) :
  1 <= String.length (numberToString n).
Proof.
  unfold numberToString, pretty, pretty_nat, pretty, pretty_N.
  case_decide as Hzero; [simpl; lia|].
  rewrite pretty_N_go_step by lia.
  etrans; [|apply pretty_N_go_length]. simpl. lia.
Qed.

Section DefaultResolverInRegister.
Context `{Collaborators}.
Implicit Types (this : SymbolTable) (e : SymbolTableEntry).

(* What the default resolver answers: a stem that depends on the requested
   name only, the separator, and the try count. *)
Lemma defaultClashResolver_stem requestedName :
  exists stem,
    String.length requestedName <= S (String.length stem)
    /\ forall descriptor file kind tryCount,
         defaultClashResolver descriptor file requestedName kind tryCount
         = stem +:+ "$" +:+ numberToString tryCount.
Proof.
  destruct (endsWith requestedName "$") eqn:Hsep.
  - destruct requestedName as [|c rest]; [discriminate|].
    exists rest. split; [simpl; lia|]. intros descriptor file kind tryCount.
    by apply defaultClashResolver_drops_first.
  - exists requestedName. split; [lia|]. intros descriptor file kind tryCount.
    by apply defaultClashResolver_appends.
Qed.

(** X12.  The default clash resolver never answers with the requested name:
    its answer is longer than the requested name, whatever the name and the
    try count. *)
Theorem defaultClashResolver_longer
    descriptor file requestedName kind tryCount :
  String.length requestedName
  < String.length
      (defaultClashResolver descriptor file requestedName kind tryCount).
Proof.
  destruct (defaultClashResolver_stem requestedName) as (stem & Hlen & ->).
  rewrite !string_length_app. simpl.
  pose proof (numberToString_nonempty tryCount). lia.
Qed.

(** X13.  For one requested name, the default clash resolver answers
    different try counts with different names. *)
Theorem defaultClashResolver_distinct_tries
    descriptor file requestedName kind tryCount tryCount' :
  tryCount <> tryCount' ->
  defaultClashResolver descriptor file requestedName kind tryCount
  <> defaultClashResolver descriptor file requestedName kind tryCount'.
Proof.
  intros Hne Heq.
  destruct (defaultClashResolver_stem requestedName) as (stem & _ & Hstem).
  rewrite !Hstem in Heq.
  apply String.app_inj, String.app_inj in Heq.
  by apply pretty_nat_inj in Heq.
Qed.

(* With the default resolver, the candidates of a registration are the
   requested name and the answers to the try counts. *)
Lemma candidate_default this descriptor file requestedName kind n :
  usesDefaultResolver this ->
  candidate this descriptor file requestedName kind (S n)
  = defaultClashResolver descriptor file requestedName kind (S n).
Proof. intros Hdefault. simpl. by rewrite Hdefault. Qed.

Lemma candidate_default_inj this descriptor file requestedName kind i j :
  usesDefaultResolver this ->
  candidate this descriptor file requestedName kind i
  = candidate this descriptor file requestedName kind j ->
  i = j.
Proof.
  intros Hdefault Heq.
  destruct (defaultClashResolver_stem requestedName) as (stem & Hlen & Hstem).
  assert (forall n,
            String.length requestedName
            < String.length
                (candidate this descriptor file requestedName kind (S n)))
    as Hlonger.
  { intros n. rewrite candidate_default, Hstem by done.
    rewrite !string_length_app. simpl.
    pose proof (numberToString_nonempty (S n)). lia. }
  destruct i as [|i], j as [|j]; [done|..].
  - specialize (Hlonger j). rewrite <- Heq in Hlonger. simpl in Hlonger. lia.
  - specialize (Hlonger i). rewrite Heq in Hlonger. simpl in Hlonger. lia.
  - rewrite !candidate_default, !Hstem in Heq by done.
    apply String.app_inj, String.app_inj in Heq.
    by apply pretty_nat_inj in Heq.
Qed.

(** X14.  With the default clash resolver the try budget is enough for a
    file that holds at most 100 entries: when the duplicate check passes,
    register succeeds. *)
Theorem register_default_resolver_succeeds
    this requestedName descriptor file kind :
  usesDefaultResolver this ->
  has this descriptor (Some (inr (default "default" kind))) None = false ->
  length (list_ this file None) <= 100 ->
  exists name this' calls,
    register this requestedName descriptor file kind
    = Some (Returned name, this', calls).
Proof.
  intros Hdefault Hcheck Hroom.
  destruct (register_resolution this requestedName descriptor file kind Hcheck)
    as (n & Hn & Hbefore & [[_ Hreg] | (-> & Hlast & _)]); [eauto|].
  exfalso.
  set (cand := candidate this descriptor file requestedName
                 (default "default" kind)).
  assert (forall i, i <= clashResolveMaxTries ->
            hasNameInFile this (cand i) file = true) as Htaken.
  { intros i Hi. destruct (decide (i = clashResolveMaxTries)) as [->|Hne];
      [done|]. apply Hbefore. lia. }
  assert (cand <$> seq 0 (S clashResolveMaxTries)
          ⊆+ e_name <$> list_ this file None) as Hsub.
  { apply NoDup_submseteq.
    - apply NoDup_fmap_2_strong; [|apply NoDup_seq].
      intros i j _ _ Heq. by apply (candidate_default_inj this) in Heq.
    - intros name Hin.
      apply list_elem_of_fmap in Hin as (i & -> & Hi).
      apply elem_of_seq in Hi.
      assert (hasNameInFile this (cand i) file = true) as Hi'
        by (apply Htaken; lia).
      apply hasNameInFile_true in Hi' as (e & Hin & Hfile & Hname).
      apply list_elem_of_fmap. exists e. split; [done|].
      apply elem_of_list_. split; [done|]. split; [done|]. by intros k [=]. }
  apply submseteq_length in Hsub.
  rewrite !length_fmap, length_seq in Hsub.
  unfold clashResolveMaxTries in Hsub. lia.
Qed.
End DefaultResolverInRegister.

(** X13, witness: the answers to the try counts 1 and 2 for "Foo". *)
Lemma defaultClashResolver_distinct_tries_witness :
  defaultClashResolver Scenario.d1 Scenario.fileX "Foo" "default" 1
  <> defaultClashResolver Scenario.d1 Scenario.fileX "Foo" "default" 2.
Proof.
  apply (defaultClashResolver_distinct_tries Scenario.d1 Scenario.fileX "Foo"
           "default" 1 2).
  lia.
Defined.

(** X14, witness: a table with the default resolver and one entry in
    fileX. *)
Lemma register_default_resolver_succeeds_witness :
  exists name this' calls,
    register (Scenario.holding [Scenario.fooClassX]) "Foo" Scenario.d2
      Scenario.fileX (Some "class")
    = Some (Returned name, this', calls).
Proof.
  apply (register_default_resolver_succeeds
           (Scenario.holding [Scenario.fooClassX]) "Foo" Scenario.d2
           Scenario.fileX (Some "class")).
  - reflexivity.
  - reflexivity.
  - simpl. lia.
Defined.

(** ** The arguments of protoc *)

Section ProtocArguments.
Import Protoc.

Lemma addPlugins_prepends (plugins args : list string) :
  addPlugins plugins args
  = (flat_map (fun plugin => ["--plugin"; plugin]) (rev plugins) ++ args)%list.
Proof.
  unfold addPlugins. revert args.
  induction plugins as [|plugin plugins IH]; intros args; simpl; [done|].
  rewrite IH, flat_map_app. simpl. by rewrite <- app_assoc.
Qed.

Lemma arguments_prepends (argv : list string) (release : Release)
    (plugins : list string) :
  arguments argv release plugins
  = (flat_map (fun plugin => ["--plugin"; plugin]) (rev plugins)
     ++ drop 2 argv
     ++ ["--proto_path"; includePath release])%list.
Proof. unfold arguments. apply addPlugins_prepends. Qed.

(** X15.  protoc is called with a --plugin flag for every plugin found, the
    plugin found last coming first, then the arguments of the user from the
    third element of argv on, in their order, then --proto_path with the
    include directory of the release: the include directory is always the
    last proto path. *)
Theorem arguments_layout (argv : list string) (release : Release)
    (plugins : list string) :
  arguments argv release plugins
  = (flat_map (fun plugin => ["--plugin"; plugin]) (rev plugins)
     ++ drop 2 argv
     ++ ["--proto_path"; includePath release])%list.
Proof. apply arguments_prepends. Qed.

(** X16.  The script spawns nothing when no release is installed, and
    otherwise exactly one process: the protoc of the first installed
    release, with the arguments laid out as above; and whenever it writes
    an error message it exits with code 1. *)
Theorem main_spawns_first_release (installed : list Release)
    (argv plugins : list string) (spawnSync : string -> list string -> Child) :
  spawned (main installed argv plugins spawnSync)
  = match installed with
    | [] => []
    | release :: _ =>
        [(protocPath release,
          (flat_map (fun plugin => ["--plugin"; plugin]) (rev plugins)
           ++ drop 2 argv
           ++ ["--proto_path"; includePath release])%list)]
    end
  /\ (stderr (main installed argv plugins spawnSync) <> [] ->
      exitCode (main installed argv plugins spawnSync) = Some 1%Z).
Proof.
  destruct installed as [|release others]; [done|].
  rewrite <- arguments_prepends. unfold main. cbn [head].
  destruct (child_error (spawnSync _ _)); simpl; done.
Qed.
End ProtocArguments.
